(** * Jacobi linear solver (toolkits/linear_solvers/jacobi.cpp)

    A shallow embedding of the GraphLab Jacobi toolkit: the vertex and edge
    records, the update functor [jacobi_update::operator()], the convergence
    [accumulator] and the parts of [main] that seed the scheduler.

    [real_type] comes from [../shared/types.hpp], which is not part of the
    sources at hand; it is taken as a parameter (class [RealType]) and
    instantiated twice: with IEEE binary64 ([double], Rocq's primitive
    floats) and with exact rationals ([Qc]). *)

From Stdlib Require Import Floats QArith Qcanon.
From stdpp Require Import base list strings gmap.

Set Default Proof Using "Type".

(** ** The scalar type *)

(** The operations jacobi.cpp applies to [real_type] values.  [r_zero] and
    [r_one] are the literals [0] and [1] converted to [real_type]; [r_max] is
    [std::numeric_limits<real_type>::max()]; [r_pow2 x] is [std::pow(x, 2)];
    [r_eqb] and [r_ltb] are [==] and [<]. *)
Class RealType (R : Type) := {
  r_zero : R;
  r_one : R;
  r_max : R;
  r_add : R → R → R;
  r_sub : R → R → R;
  r_mul : R → R → R;
  r_div : R → R → R;
  r_pow2 : R → R;
  r_eqb : R → R → bool;
  r_ltb : R → R → bool;
  r_one_nonzero : r_eqb r_one r_zero = false
}.

(** [double]: IEEE 754 binary64 with round-to-nearest-even.  The largest
    finite double is (2 - 2^-52) * 2^1023. *)
Definition double_max : float := 0x1.fffffffffffffp+1023%float.

#[export] Instance double_real : RealType float := {|
  r_zero := 0%float;
  r_one := 1%float;
  r_max := double_max;
  r_add := PrimFloat.add;
  r_sub := PrimFloat.sub;
  r_mul := PrimFloat.mul;
  r_div := PrimFloat.div;
  r_pow2 := λ x, PrimFloat.mul x x;
  r_eqb := PrimFloat.eqb;
  r_ltb := PrimFloat.ltb;
  r_one_nonzero := eq_refl
|}.

(** Exact arithmetic.  This is not the arithmetic of the source, which
    computes in floating point: it is the reading "in exact arithmetic"
    under which the spec states its sums and its reduction, and serves only
    to show that what an evaluation in binary64 shows does not come from
    rounding.  [r_max] is the rational value of the largest finite double;
    there is no overflow, infinity or NaN, and division by zero is never
    reached behind the assertion of the update functor. *)
Definition exact_max : Qc := Q2Qc (inject_Z ((2 ^ 53 - 1) * 2 ^ 971)).

Definition Qc_ltb (a b : Qc) : bool :=
  match (a ?= b)%Qc with Lt => true | _ => false end.

#[export] Instance exact_real : RealType Qc := {|
  r_zero := 0%Qc;
  r_one := 1%Qc;
  r_max := exact_max;
  r_add := Qcplus;
  r_sub := Qcminus;
  r_mul := Qcmult;
  r_div := Qcdiv;
  r_pow2 := λ x, Qcmult x x;
  r_eqb := Qc_eq_bool;
  r_ltb := Qc_ltb;
  r_one_nonzero := eq_refl
|}.

(** ** Faults *)

Abbreviation vertex_id_type := nat (only parsing).
Abbreviation edge_id_type := nat (only parsing).

(** The ways an invocation can abort the process instead of returning. *)
Inductive fault :=
  | assert_A_ii_nonzero   (* jacobi.cpp:85; the message names no vertex *)
  | vertex_out_of_range (v : vertex_id_type)
  | edge_out_of_range (e : edge_id_type)
  | global_undefined (key : string).

Inductive outcome (A : Type) :=
  | Done (a : A)
  | Fault (f : fault).
Arguments Done {A} a.
Arguments Fault {A} f.

Definition obind {A B} (m : outcome A) (k : A → outcome B) : outcome B :=
  match m with
  | Done a => k a
  | Fault f => Fault f
  end.

Notation "'do' x <- m ; k" := (obind m (λ x, k))
  (at level 10, x name, m at level 100, k at level 200,
   format "'[v' 'do'  x  <-  m ; '/' k ']'").

Definition of_option {A} (o : option A) (f : fault) : outcome A :=
  match o with
  | Some a => Done a
  | None => Fault f
  end.

Section Jacobi.
Context {R : Type} `{RT : RealType R}.

(** ** Graph model (jacobi.cpp:49-66) *)

Record vertex_data := Vertex_data {
  y : R;
  Aii : R;
  pred_x : R;
  real_x : R;
  prev_x : R
}.

Record edge_data := Edge_data { weight : R }.

(** What [std::cout] receives from the vertex constructor, the update
    functor and the accumulator, one constructor per line (per
    [std::endl]). *)
Inductive cout_line :=
  | line_hello
  | line_entering (v : vertex_id_type) (A_ii u : R)
  | line_x_i (v : vertex_id_type) (x_i : R)
  | line_real_norm (real_norm : R)
  | line_relative_norm (relative_norm : R).

(** [vertex_data::vertex_data()] *)
Definition vertex_data_ctor : vertex_data :=
  Vertex_data r_zero r_one r_zero r_zero r_max.

(** The constructor's effect on [std::cout]. *)
Definition vertex_data_ctor_cout (debug : bool) (cout : list cout_line)
  : list cout_line :=
  if debug then cout ++ [line_hello] else cout.

Definition add_self_edge (vd : vertex_data) (value : R) : vertex_data :=
  Vertex_data (y vd) value (pred_x vd) (real_x vd) (prev_x vd).

Definition set_val (vd : vertex_data) (value : R) : vertex_data :=
  Vertex_data value (Aii vd) (pred_x vd) (real_x vd) (prev_x vd).

Definition get_output (vd : vertex_data) : R := pred_x vd.

(** [edge_data::edge_data(double weight = 0)] *)
Definition edge_data_ctor (w : option R) : edge_data :=
  Edge_data (default r_zero w).

(** Assignments to single fields through a [vertex_data&]. *)
Definition set_pred_x (vd : vertex_data) (x : R) : vertex_data :=
  Vertex_data (y vd) (Aii vd) x (real_x vd) (prev_x vd).

Definition set_prev_x (vd : vertex_data) (x : R) : vertex_data :=
  Vertex_data (y vd) (Aii vd) (pred_x vd) (real_x vd) x.

(** Modelled from the spec: [graphlab::graph<vertex_data, edge_data>]
    ([graphlab.hpp] is not among the sources), "Edge - one off-diagonal
    coefficient A_ij directed from row i to the column j it references".
    Vertices and edges are numbered from zero; an edge knows its two ends. *)
Record edge_record := Edge_record {
  source : vertex_id_type;
  target : vertex_id_type;
  data : edge_data
}.

Record graph_type := Graph {
  vertices : list vertex_data;
  edges : list edge_record
}.

(** Modelled from the spec: [context.vertex_data()] and
    [context.const_vertex_data(vid)], "read access to ... each edge's target
    vertex"; an id outside the graph is a fault. *)
Definition get_vertex (g : graph_type) (v : vertex_id_type)
  : outcome vertex_data :=
  of_option (vertices g !! v) (vertex_out_of_range v).

(** Modelled from the spec: [context.edge_data(eid)] and
    [context.target(eid)], "read access to its incident edges". *)
Definition get_edge (g : graph_type) (e : edge_id_type)
  : outcome edge_record :=
  of_option (edges g !! e) (edge_out_of_range e).

(** Write through a reference obtained from [context.vertex_data()]. *)
Definition put_vertex (g : graph_type) (v : vertex_id_type)
  (vd : vertex_data) : graph_type :=
  Graph (<[v := vd]> (vertices g)) (edges g).

Fixpoint out_edge_ids_from (i : edge_id_type) (es : list edge_record)
  (v : vertex_id_type) : list edge_id_type :=
  match es with
  | [] => []
  | e :: es' =>
      if decide (source e = v)
      then i :: out_edge_ids_from (S i) es' v
      else out_edge_ids_from (S i) es' v
  end.

(** Modelled from the spec: [context.out_edge_ids()] for the vertex [v],
    the ids of the edges "directed from row i", in increasing order. *)
Definition out_edge_ids (g : graph_type) (v : vertex_id_type)
  : list edge_id_type :=
  out_edge_ids_from 0 (edges g) v.

(** ** Engine state seen through [icontext_type] / [iglobal_context_type]

    The graph, the scheduler's pending tasks, the table of globals, the
    termination flag, and what has been written to [std::cout]. *)

(** [struct jacobi_update] has no data members. *)
Inductive jacobi_update : Set := Jacobi_update.

Record engine_state := Engine {
  graph : graph_type;
  scheduler : list (vertex_id_type * jacobi_update);
  globals : gmap string R;
  terminated : bool;
  cout : list cout_line
}.

Definition with_graph (st : engine_state) (g : graph_type) : engine_state :=
  Engine g (scheduler st) (globals st) (terminated st) (cout st).

(** [std::cout << ... << std::endl] *)
Definition print (st : engine_state) (l : cout_line) : engine_state :=
  Engine (graph st) (scheduler st) (globals st) (terminated st)
    (cout st ++ [l]).

(** Modelled from the spec: [context.schedule(vid, functor)], "re-activate
    vertex v for a future round": the task joins the pending ones. *)
Definition schedule (st : engine_state) (v : vertex_id_type)
  (f : jacobi_update) : engine_state :=
  Engine (graph st) (scheduler st ++ [(v, f)]) (globals st) (terminated st)
    (cout st).

(** Modelled from the spec: [context.set_global(key, value)], "publishes
    ... to process-wide observable state". *)
Definition set_global (st : engine_state) (key : string) (value : R)
  : engine_state :=
  Engine (graph st) (scheduler st) (<[key := value]> (globals st))
    (terminated st) (cout st).

(** Modelled from the spec: [context.get_global<real_type>(key)], reading
    "a configured scalar"; a key never set is a fault. *)
Definition get_global (st : engine_state) (key : string) : outcome R :=
  of_option (globals st !! key) (global_undefined key).

(** Modelled from the spec: [context.terminate()], "signal the engine to
    stop dispatching further work". *)
Definition terminate (st : engine_state) : engine_state :=
  Engine (graph st) (scheduler st) (globals st) true (cout st).

(** ** The update functor (jacobi.cpp:72-104) *)

(** One turn of the loop at lines 92-97.  [x_i] is a reference to the
    [pred_x] field of vertex [v] inside the graph and [other] a reference to
    the target's record inside the same graph, so every turn reads both from
    the graph as the previous turn left it. *)
Definition relax_edge (v : vertex_id_type) (g : graph_type)
  (eid : edge_id_type) : outcome graph_type :=
  do out_edge <- get_edge g eid;
  do other <- get_vertex g (target out_edge);
  do vdata <- get_vertex g v;
  Done (put_vertex g v
          (set_pred_x vdata
             (r_sub (pred_x vdata)
                    (r_mul (weight (data out_edge)) (pred_x other))))).

Fixpoint relax_edges (v : vertex_id_type) (g : graph_type)
  (outedgeid : list edge_id_type) : outcome graph_type :=
  match outedgeid with
  | [] => Done g
  | eid :: rest => do g' <- relax_edge v g eid; relax_edges v g' rest
  end.

(** What the loop leaves in [x_i] when it starts from [x] and reads the
    neighbours' estimates from [g]: x - A_ij1 * x_j1 - A_ij2 * x_j2 - ... *)
Fixpoint relaxed (g : graph_type) (x : R) (outedgeid : list edge_id_type)
  : R :=
  match outedgeid with
  | [] => x
  | eid :: rest =>
      match edges g !! eid with
      | Some out_edge =>
          match vertices g !! target out_edge with
          | Some other =>
              relaxed g
                (r_sub x (r_mul (weight (data out_edge)) (pred_x other)))
                rest
          | None => x
          end
      | None => x
      end
  end.

(** [jacobi_update::operator()(icontext_type& context)], with
    [context.vertex_id() = v] and the global [debug] passed in.  The
    assertion is compiled in (no [NDEBUG]): a diagonal that compares equal
    to zero aborts the process after [prev_x] has been written. *)
Definition jacobi_update_operator (debug : bool) (self : jacobi_update)
  (v : vertex_id_type) (st : engine_state) : outcome engine_state :=
  do vdata <- get_vertex (graph st) v;
  let outedgeid := out_edge_ids (graph st) v in
  (* vdata.prev_x = vdata.pred_x *)
  let vdata := set_prev_x vdata (pred_x vdata) in
  let st := with_graph st (put_vertex (graph st) v vdata) in
  (* assert(A_ii != 0) *)
  if r_eqb (Aii vdata) r_zero then Fault assert_A_ii_nonzero else
  let st :=
    if debug then print st (line_entering v (Aii vdata) (prev_x vdata))
    else st in
  do g <- relax_edges v (graph st) outedgeid;
  (* x_i /= A_ii *)
  do vdata <- get_vertex g v;
  let vdata := set_pred_x vdata (r_div (pred_x vdata) (Aii vdata)) in
  let st := with_graph st (put_vertex g v vdata) in
  let st := if debug then print st (line_x_i v (pred_x vdata)) else st in
  Done (schedule st v self).

(** ** The accumulator (jacobi.cpp:110-137) *)

Record accumulator := Accumulator {
  real_norm : R;
  relative_norm : R
}.

(** [accumulator::accumulator()] *)
Definition accumulator_ctor : accumulator := Accumulator r_max r_max.

(** [accumulator::operator()(icontext_type& context)] on vertex [v] *)
Definition accumulator_operator (acc : accumulator) (v : vertex_id_type)
  (st : engine_state) : outcome accumulator :=
  do vdata <- get_vertex (graph st) v;
  Done (Accumulator
          (r_add (real_norm acc)
                 (r_pow2 (r_sub (pred_x vdata) (real_x vdata))))
          (r_add (relative_norm acc)
                 (r_pow2 (r_sub (pred_x vdata) (prev_x vdata))))).

(** [accumulator::operator+=(const accumulator& other)] *)
Definition accumulator_plus_eq (acc other : accumulator) : accumulator :=
  Accumulator (r_add (real_norm acc) (real_norm other))
              (r_add (relative_norm acc) (relative_norm other)).

(** [accumulator::finalize(iglobal_context_type& context)] *)
Definition accumulator_finalize (acc : accumulator) (st : engine_state)
  : outcome engine_state :=
  let st := print st (line_real_norm (real_norm acc)) in
  let st := print st (line_relative_norm (relative_norm acc)) in
  let st := set_global st "REAL_NORM" (real_norm acc) in
  let st := set_global st "RELATIVE_NORM" (relative_norm acc) in
  do threshold <- get_global st "THRESHOLD";
  Done (if r_ltb (real_norm acc) threshold then terminate st else st).

(** ** The runtime around the functors

    [graphlab.hpp] (engine, scheduler) and [../shared/io.hpp] (loaders) are
    not among the sources; [main] (jacobi.cpp:143-213) only calls them. *)

(** Modelled from the spec: [core.schedule_all(jacobi_update())]
    (jacobi.cpp:194), "mark every vertex active with the Update Functor as
    its pending work item". *)
Definition schedule_all (st : engine_state) (f : jacobi_update)
  : engine_state :=
  Engine (graph st)
    (scheduler st ++ map (λ v, (v, f)) (seq 0 (length (vertices (graph st)))))
    (globals st) (terminated st) (cout st).

(** Modelled from the spec: the engine's dispatch loop ([core.start()]),
    "engine dequeues an active vertex -> invokes Update Functor".  A run is
    given by the vertices in the order the engine dispatches them; a fault
    ends the run. *)
Fixpoint invoke_each (debug : bool) (vs : list vertex_id_type)
  (st : engine_state) : outcome engine_state :=
  match vs with
  | [] => Done st
  | v :: rest =>
      do st' <- jacobi_update_operator debug Jacobi_update v st;
      invoke_each debug rest st'
  end.

(** A sweep: one dispatch of the update functor per vertex, in index
    order. *)
Definition sweep (debug : bool) (st : engine_state) : outcome engine_state :=
  invoke_each debug (seq 0 (length (vertices (graph st)))) st.

(** Modelled from the spec: one worker's share of an accumulation pass,
    "Per-vertex step" applied to each vertex of a group, starting from a
    freshly constructed accumulator. *)
Fixpoint accumulate (acc : accumulator) (vs : list vertex_id_type)
  (st : engine_state) : outcome accumulator :=
  match vs with
  | [] => Done acc
  | v :: rest =>
      do acc' <- accumulator_operator acc v st; accumulate acc' rest st
  end.

Definition accumulate_group (st : engine_state) (vs : list vertex_id_type)
  : outcome accumulator :=
  accumulate accumulator_ctor vs st.

Fixpoint accumulate_groups (st : engine_state)
  (groups : list (list vertex_id_type)) : outcome (list accumulator) :=
  match groups with
  | [] => Done []
  | vs :: rest =>
      do acc <- accumulate_group st vs;
      do accs <- accumulate_groups st rest;
      Done (acc :: accs)
  end.

(** Modelled from the spec: an accumulation pass, "{per-vertex
    contribution} -> {combine}": the workers' partial states are merged
    with [operator+=], left to right. *)
Definition accumulation_pass (st : engine_state)
  (groups : list (list vertex_id_type)) : outcome accumulator :=
  do partials <- accumulate_groups st groups;
  Done (match partials with
        | [] => accumulator_ctor
        | acc :: others => foldl accumulator_plus_eq acc others
        end).

(** The pass run by a single worker over all vertices. *)
Definition accumulate_all (st : engine_state) : outcome accumulator :=
  accumulation_pass st [seq 0 (length (vertices (graph st)))].

(** *** Loading *)

(** One nonzero entry of the matrix file. *)
Record matrix_entry := Matrix_entry {
  row : vertex_id_type;
  col : vertex_id_type;
  val : R
}.

Record solver_input := Solver_input {
  dim : nat;
  entries : list matrix_entry;
  yvals : list R
}.

Inductive load_error :=
  | malformed_entry (e : matrix_entry)
  | dimension_mismatch.

(** Modelled from the spec: [load_graph] storing one entry, "diagonal
    entries populate vertex diagonal, off-diagonal entries populate
    edges"; the diagonal goes through [add_self_edge] of jacobi.cpp. *)
Definition load_entry (g : graph_type) (e : matrix_entry)
  : load_error + graph_type :=
  if decide (row e = col e) then
    match vertices g !! row e with
    | Some vd => inr (put_vertex g (row e) (add_self_edge vd (val e)))
    | None => inl (malformed_entry e)
    end
  else if decide (row e < length (vertices g) ∧ col e < length (vertices g))
  then inr (Graph (vertices g)
              (edges g ++
                 [Edge_record (row e) (col e) (edge_data_ctor (Some (val e)))]))
  else inl (malformed_entry e).

Fixpoint load_entries (g : graph_type) (es : list matrix_entry)
  : load_error + graph_type :=
  match es with
  | [] => inr g
  | e :: rest =>
      match load_entry g e with
      | inr g' => load_entries g' rest
      | inl err => inl err
      end
  end.

(** Modelled from the spec: [load_vector], "populates vertex y", through
    [set_val] of jacobi.cpp; a length other than the matrix dimension is a
    "dimension mismatch with a previously loaded matrix". *)
Definition load_vector (g : graph_type) (ys : list R)
  : load_error + graph_type :=
  if decide (length ys = length (vertices g))
  then inr (Graph (zip_with set_val (vertices g) ys) (edges g))
  else inl dimension_mismatch.

(** Modelled from the spec: [load_graph] followed by [load_vector]
    (jacobi.cpp:189-191) on a graph of [dim] default-constructed vertices. *)
Definition assemble (inp : solver_input) : load_error + graph_type :=
  match load_entries (Graph (replicate (dim inp) vertex_data_ctor) [])
          (entries inp) with
  | inr g => load_vector g (yvals inp)
  | inl err => inl err
  end.

(** [main] from the two loads to [core.schedule_all] (jacobi.cpp:189-194):
    nothing stands between loading and scheduling, the diagonals are not
    looked at. *)
Definition load (inp : solver_input) : load_error + engine_state :=
  match assemble inp with
  | inr g => inr (schedule_all (Engine g [] ∅ false []) Jacobi_update)
  | inl err => inl err
  end.

(** *** The update rule and the norms in the words of the spec *)

(** The sum over the out-edges (i,j) of A_ij * x_j, the x_j read from [g]. *)
Fixpoint spec_offdiag_sum (g : graph_type) (eids : list edge_id_type) : R :=
  match eids with
  | [] => r_zero
  | eid :: rest =>
      match edges g !! eid with
      | Some e =>
          match vertices g !! target e with
          | Some other =>
              r_add (r_mul (weight (data e)) (pred_x other))
                    (spec_offdiag_sum g rest)
          | None => spec_offdiag_sum g rest
          end
      | None => spec_offdiag_sum g rest
      end
  end.

(** The spec's update rule: (y_i - sum_j A_ij * x_j) / A_ii. *)
Definition spec_estimate (g : graph_type) (v : vertex_id_type) : option R :=
  vd ← vertices g !! v;
  Some (r_div (r_sub (y vd) (spec_offdiag_sum g (out_edge_ids g v)))
              (Aii vd)).

(** The spec's norms: sums over the vertices of (estimate - reference)^2 and
    of (estimate - previous_estimate)^2. *)
Fixpoint spec_absolute_error_norm (vs : list vertex_data) : R :=
  match vs with
  | [] => r_zero
  | vd :: rest =>
      r_add (r_pow2 (r_sub (pred_x vd) (real_x vd)))
            (spec_absolute_error_norm rest)
  end.

Fixpoint spec_relative_error_norm (vs : list vertex_data) : R :=
  match vs with
  | [] => r_zero
  | vd :: rest =>
      r_add (r_pow2 (r_sub (pred_x vd) (prev_x vd)))
            (spec_relative_error_norm rest)
  end.

End Jacobi.

Arguments vertex_data R : clear implicits.
Arguments edge_data R : clear implicits.
Arguments cout_line R : clear implicits.
Arguments edge_record R : clear implicits.
Arguments graph_type R : clear implicits.
Arguments engine_state R : clear implicits.
Arguments accumulator R : clear implicits.
Arguments matrix_entry R : clear implicits.
Arguments solver_input R : clear implicits.
Arguments load_error R : clear implicits.

(** The spec's fixed point of a system without off-diagonal entries:
    x_i = y_i / A_ii. *)
Definition spec_diagonal_solution {R} `{RealType R} (g : graph_type R)
  : list R :=
  map (λ vd, r_div (y vd) (Aii vd)) (vertices g).

(** Modelled from the spec: [fill_output] ([../shared/io.hpp]) as [main]
    uses it (jacobi.cpp:202), "the final per-vertex estimate sequence,
    ordered by vertex index", read through [get_output]. *)
Definition fill_output {R} (g : graph_type R) : list R :=
  map get_output (vertices g).

(** ** Concrete systems *)

(** A = diag(d,d,d) with every off-diagonal entry [o], right-hand side
    (b0,b1,b2). *)
Definition system3 {R} (d o b0 b1 b2 : R) : solver_input R :=
  Solver_input 3
    [Matrix_entry 0 0 d; Matrix_entry 0 1 o; Matrix_entry 0 2 o;
     Matrix_entry 1 0 o; Matrix_entry 1 1 d; Matrix_entry 1 2 o;
     Matrix_entry 2 0 o; Matrix_entry 2 1 o; Matrix_entry 2 2 d]
    [b0; b1; b2].

(** A = diag(a0,a1), right-hand side (b0,b1): no off-diagonal entry. *)
Definition diagonal2 {R} (a0 a1 b0 b1 : R) : solver_input R :=
  Solver_input 2 [Matrix_entry 0 0 a0; Matrix_entry 1 1 a1] [b0; b1].


(** The state [load] returns, or an empty engine when it refuses. *)
Definition loaded {R} `{RealType R} (inp : solver_input R) : engine_state R :=
  match load inp with
  | inr st => st
  | inl _ => Engine (Graph [] []) [] ∅ false []
  end.

(** The state an outcome carries, or [st] itself after a fault. *)
Definition state_or {R} (st : engine_state R) (o : outcome (engine_state R))
  : engine_state R :=
  match o with
  | Done st' => st'
  | Fault _ => st
  end.

Module Double.

(** The system of the spec's scenario: diag(4,4,4), off-diagonals -1,
    b = (3,6,9). *)
Definition scenario : solver_input float :=
  system3 4%float (-1)%float 3%float 6%float 9%float.

(** diag(2,4), b = (6,8). *)
Definition diagonal : solver_input float :=
  diagonal2 2%float 4%float 6%float 8%float.


(** A 1x1 system whose matrix file has no entry: the diagonal keeps the
    constructor's value. *)
Definition unloaded : solver_input float := Solver_input 1 [] [5%float].

Definition scenario_loaded : engine_state float := loaded scenario.

Definition scenario_updated : engine_state float :=
  state_or scenario_loaded
    (jacobi_update_operator false Jacobi_update 0 scenario_loaded).

Definition scenario_swept : engine_state float :=
  state_or scenario_loaded (sweep false scenario_loaded).

Definition diagonal_swept : engine_state float :=
  state_or (loaded diagonal) (sweep false (loaded diagonal)).

(** The command line's default threshold, 1e-5 rounded to binary64. *)
Definition default_threshold : float := 0x1.4f8b588e368f1p-17%float.

Definition configured : engine_state float :=
  set_global scenario_swept "THRESHOLD" default_threshold.

End Double.

Module Exact.

Definition scenario : solver_input Qc :=
  system3 (Q2Qc 4) (Q2Qc (-1)) (Q2Qc 3) (Q2Qc 6) (Q2Qc 9).

Definition diagonal : solver_input Qc :=
  diagonal2 (Q2Qc 2) (Q2Qc 4) (Q2Qc 6) (Q2Qc 8).

Definition scenario_loaded : engine_state Qc := loaded scenario.

Definition scenario_updated : engine_state Qc :=
  state_or scenario_loaded
    (jacobi_update_operator false Jacobi_update 0 scenario_loaded).

Definition scenario_swept : engine_state Qc :=
  state_or scenario_loaded (sweep false scenario_loaded).

Definition diagonal_swept : engine_state Qc :=
  state_or (loaded diagonal) (sweep false (loaded diagonal)).

End Exact.

(** ** Derived notions used by the further properties *)

(** The value the loop at jacobi.cpp:92-97 leaves in [x_i] when it starts
    from [x]: an edge that leads back to [v] reads [x_i] itself, as it stands
    at that turn (both references point into the same record); any other
    edge reads its target's estimate from [g]. *)
Fixpoint relaxed_in_place {R} `{RealType R} (v : vertex_id_type)
  (g : graph_type R) (x : R) (outedgeid : list edge_id_type) : R :=
  match outedgeid with
  | [] => x
  | eid :: rest =>
      match edges g !! eid with
      | Some out_edge =>
          match (if decide (target out_edge = v) then Some x
                 else pred_x <$> vertices g !! target out_edge) with
          | Some other_x =>
              relaxed_in_place v g
                (r_sub x (r_mul (weight (data out_edge)) other_x)) rest
          | None => x
          end
      | None => x
      end
  end.

(** The estimates of all vertices satisfy [P]. *)
Definition estimates_all {R} (P : R → Prop) (g : graph_type R) : Prop :=
  ∀ u vd, vertices g !! u = Some vd → P (pred_x vd).

(** The weights of all edges satisfy [P]. *)
Definition weights_all {R} (P : R → Prop) (g : graph_type R) : Prop :=
  ∀ eid e, edges g !! eid = Some e → P (weight (data e)).

(** The diagonals of all vertices satisfy [P]. *)
Definition diagonals_all {R} (P : R → Prop) (g : graph_type R) : Prop :=
  ∀ u vd, vertices g !! u = Some vd → P (Aii vd).

(** A binary64 value that compares equal to zero: +0 or -0. *)
Definition double_zero (x : float) : Prop := PrimFloat.eqb x 0%float = true.

(** A binary64 value that is neither a NaN nor an infinity. *)
Definition double_finite (x : float) : Prop := PrimFloat.is_finite x = true.

(** A binary64 value that is not a NaN. *)
Definition double_number (x : float) : Prop := PrimFloat.is_nan x = false.

(** * Properties *)

Section JacobiFacts.
Context {R : Type} `{RT : RealType R}.
Implicit Types (g : graph_type R) (st : engine_state R) (vd : vertex_data R).
Implicit Types (v u : vertex_id_type) (self : jacobi_update).

(** ** Frame of the relaxation loop *)

(** [vd'] is [vd] up to the estimate. *)
Definition same_but_pred_x vd vd' : Prop :=
  y vd' = y vd ∧ Aii vd' = Aii vd ∧ real_x vd' = real_x vd
  ∧ prev_x vd' = prev_x vd.

(** [g'] is [g] up to the estimate of vertex [v]. *)
Definition frame_of v g g' : Prop :=
  edges g' = edges g
  ∧ length (vertices g') = length (vertices g)
  ∧ (∀ u, u ≠ v → vertices g' !! u = vertices g !! u)
  ∧ (∀ vd, vertices g !! v = Some vd →
       ∃ vd', vertices g' !! v = Some vd' ∧ same_but_pred_x vd vd').

Lemma same_but_pred_x_refl vd : same_but_pred_x vd vd.
Proof. by repeat split. Qed.

Lemma same_but_pred_x_trans vd1 vd2 vd3 :
  same_but_pred_x vd1 vd2 → same_but_pred_x vd2 vd3 →
  same_but_pred_x vd1 vd3.
Proof.
  intros (?&?&?&?) (?&?&?&?). repeat split; congruence.
Qed.

Lemma frame_of_refl v g : frame_of v g g.
Proof.
  repeat split; auto. intros vd Hvd. exists vd.
  split; [done | apply same_but_pred_x_refl].
Qed.

Lemma frame_of_trans v g1 g2 g3 :
  frame_of v g1 g2 → frame_of v g2 g3 → frame_of v g1 g3.
Proof.
  intros (He1 & Hl1 & Ho1 & Hv1) (He2 & Hl2 & Ho2 & Hv2).
  split; [congruence|]. split; [congruence|]. split.
  - intros u Hu. rewrite Ho2, Ho1; auto.
  - intros vd Hvd. destruct (Hv1 vd Hvd) as (vd2 & Hvd2 & Hs12).
    destruct (Hv2 vd2 Hvd2) as (vd3 & Hvd3 & Hs23).
    exists vd3. split; [done|]. by eapply same_but_pred_x_trans.
Qed.

Lemma get_vertex_Done g v vd :
  get_vertex g v = Done vd ↔ vertices g !! v = Some vd.
Proof.
  unfold get_vertex. destruct (vertices g !! v); simpl; split; congruence.
Qed.

Lemma get_edge_Done g eid (e : edge_record R) :
  get_edge g eid = Done e ↔ edges g !! eid = Some e.
Proof.
  unfold get_edge. destruct (edges g !! eid); simpl; split; congruence.
Qed.

Lemma obind_Done {A B} (m : outcome A) (k : A → outcome B) b :
  obind m k = Done b ↔ ∃ a, m = Done a ∧ k a = Done b.
Proof.
  destruct m as [a|f]; simpl; split.
  - intros Hk. by exists a.
  - by intros (a' & [= ->] & Hk).
  - done.
  - by intros (a' & ? & _).
Qed.

(** Writing a record that differs from the stored one in [pred_x] only. *)
Lemma frame_of_put_pred_x v g vd x :
  vertices g !! v = Some vd →
  frame_of v g (put_vertex g v (set_pred_x vd x)).
Proof.
  intros Hvd. unfold frame_of, put_vertex; simpl.
  split; [done|]. split; [by rewrite length_insert|]. split.
  - intros u Hu. by rewrite list_lookup_insert_ne.
  - intros vd0 Hvd0. assert (vd0 = vd) as -> by congruence.
    exists (set_pred_x vd x). split; [|by repeat split].
    apply list_lookup_insert_eq. by eapply lookup_lt_Some.
Qed.

Lemma relax_edge_frame v g eid g' :
  relax_edge v g eid = Done g' → frame_of v g g'.
Proof.
  unfold relax_edge. intros Hr.
  apply obind_Done in Hr as (e & _ & Hr).
  apply obind_Done in Hr as (other & _ & Hr).
  apply obind_Done in Hr as (vdata & Hv & Hr).
  apply get_vertex_Done in Hv. injection Hr as <-.
  by apply frame_of_put_pred_x.
Qed.

Lemma relax_edges_frame v outedgeid : ∀ g g',
  relax_edges v g outedgeid = Done g' → frame_of v g g'.
Proof.
  induction outedgeid as [|eid rest IH]; intros g g'; simpl.
  - intros [= <-]. apply frame_of_refl.
  - intros Hr. apply obind_Done in Hr as (g1 & H1 & Hr).
    eapply frame_of_trans; [by eapply relax_edge_frame | by apply IH].
Qed.

(** ** What a completed invocation did *)

(** The lines the update functor writes when [debug] is set. *)
Definition debug_lines (debug : bool) (ls : list (cout_line R))
  : list (cout_line R) :=
  if debug then ls else [].

Lemma jacobi_update_operator_Done debug self v st st' :
  jacobi_update_operator debug self v st = Done st' →
  ∃ vd g2 vd2,
    vertices (graph st) !! v = Some vd
    ∧ r_eqb (Aii vd) r_zero = false
    ∧ relax_edges v (put_vertex (graph st) v (set_prev_x vd (pred_x vd)))
        (out_edge_ids (graph st) v) = Done g2
    ∧ vertices g2 !! v = Some vd2
    ∧ graph st' =
        put_vertex g2 v (set_pred_x vd2 (r_div (pred_x vd2) (Aii vd2)))
    ∧ scheduler st' = scheduler st ++ [(v, self)]
    ∧ globals st' = globals st
    ∧ terminated st' = terminated st
    ∧ cout st' =
        (cout st ++ debug_lines debug [line_entering v (Aii vd) (pred_x vd)])
        ++ debug_lines debug
             [line_x_i v (r_div (pred_x vd2) (Aii vd2))].
Proof.
  unfold jacobi_update_operator. intros Hop.
  apply obind_Done in Hop as (vd & Hvd & Hop).
  apply get_vertex_Done in Hvd. simpl in Hop.
  destruct (r_eqb (Aii vd) r_zero) eqn:Hnz; [done|].
  apply obind_Done in Hop as (g2 & Hloop & Hop).
  apply obind_Done in Hop as (vd2 & Hvd2 & Hop).
  apply get_vertex_Done in Hvd2. injection Hop as <-.
  exists vd, g2, vd2. destruct debug; simpl in *;
    rewrite ?app_nil_r; by repeat split.
Qed.

(** ** Where the assertion can fire *)

Lemma get_vertex_no_assert g v :
  get_vertex g v ≠ Fault assert_A_ii_nonzero.
Proof. unfold get_vertex. by destruct (vertices g !! v). Qed.

Lemma relax_edge_no_assert v g eid :
  relax_edge v g eid ≠ Fault assert_A_ii_nonzero.
Proof.
  unfold relax_edge, get_edge, get_vertex.
  destruct (edges g !! eid); simpl; [|done].
  destruct (vertices g !! target _); simpl; [|done].
  by destruct (vertices g !! v).
Qed.

Lemma relax_edges_no_assert v outedgeid : ∀ g,
  relax_edges v g outedgeid ≠ Fault assert_A_ii_nonzero.
Proof.
  induction outedgeid as [|eid rest IH]; intros g; simpl; [done|].
  pose proof (relax_edge_no_assert v g eid) as Hr.
  destruct (relax_edge v g eid) as [g1|f]; simpl; [apply IH | done].
Qed.

(** The functor's assertion is the only source of its fault: an invocation
    on a vertex whose diagonal does not compare equal to zero never ends
    in it. *)
Lemma jacobi_update_operator_assert debug self v st :
  (∃ vd, vertices (graph st) !! v = Some vd ∧ r_eqb (Aii vd) r_zero = false) →
  jacobi_update_operator debug self v st ≠ Fault assert_A_ii_nonzero.
Proof.
  intros (vd & Hvd & Hnz). unfold jacobi_update_operator.
  apply get_vertex_Done in Hvd. rewrite Hvd; simpl. rewrite Hnz.
  match goal with
  | |- obind (relax_edges v ?g ?l) _ ≠ _ =>
      pose proof (relax_edges_no_assert v l g) as Hl;
      destruct (relax_edges v g l) as [g2|f]; simpl; [|congruence]
  end.
  pose proof (get_vertex_no_assert g2 v) as Hg.
  destruct (get_vertex g2 v); simpl; congruence.
Qed.

(** On a vertex whose diagonal compares equal to zero the invocation ends
    in the assertion (jacobi.cpp:85), before any edge is read. *)
Lemma jacobi_update_operator_zero_diagonal debug self v st vd :
  vertices (graph st) !! v = Some vd → r_eqb (Aii vd) r_zero = true →
  jacobi_update_operator debug self v st = Fault assert_A_ii_nonzero.
Proof.
  intros Hvd Hz. unfold jacobi_update_operator.
  apply get_vertex_Done in Hvd. rewrite Hvd; simpl. by rewrite Hz.
Qed.

(** A completed invocation on [v], vertex by vertex. *)
Lemma jacobi_update_operator_effect debug self v st st' :
  jacobi_update_operator debug self v st = Done st' →
  edges (graph st') = edges (graph st)
  ∧ length (vertices (graph st')) = length (vertices (graph st))
  ∧ (∀ u, u ≠ v → vertices (graph st') !! u = vertices (graph st) !! u)
  ∧ ∃ vd vd',
      vertices (graph st) !! v = Some vd
      ∧ vertices (graph st') !! v = Some vd'
      ∧ y vd' = y vd ∧ Aii vd' = Aii vd ∧ real_x vd' = real_x vd
      ∧ prev_x vd' = pred_x vd.
Proof.
  intros Hop.
  apply jacobi_update_operator_Done in Hop
    as (vd & g2 & vd2 & Hvd & _ & Hloop & Hvd2 & Hg & _).
  apply relax_edges_frame in Hloop.
  pose proof (frame_of_put_pred_x v g2 vd2
                (r_div (pred_x vd2) (Aii vd2)) Hvd2) as Hlast.
  rewrite <- Hg in Hlast.
  destruct (frame_of_trans _ _ _ _ Hloop Hlast) as (He & Hl & Ho & Hv).
  simpl in He, Hl, Ho, Hv. rewrite length_insert in Hl.
  split; [done|]. split; [done|]. split.
  - intros u Hu. rewrite (Ho u Hu). by apply list_lookup_insert_ne.
  - destruct (Hv (set_prev_x vd (pred_x vd))) as (vd' & Hvd' & Hs).
    { apply list_lookup_insert_eq. by eapply lookup_lt_Some. }
    destruct Hs as (Hy & Ha & Hr & Hp). by exists vd, vd'.
Qed.

(** ** The estimate a completed invocation stores *)

(** None of the listed edges leads to [v]. *)
Definition no_self_loop g v (outedgeid : list nat) : Prop :=
  ∀ eid (e : edge_record R),
    eid ∈ outedgeid → edges g !! eid = Some e → target e ≠ v.

Lemma relaxed_frame v g g' outedgeid : ∀ x,
  edges g' = edges g →
  (∀ u, u ≠ v → vertices g' !! u = vertices g !! u) →
  no_self_loop g v outedgeid →
  relaxed g' x outedgeid = relaxed g x outedgeid.
Proof.
  induction outedgeid as [|eid rest IH]; intros x He Ho Hns; simpl; [done|].
  rewrite He. destruct (edges g !! eid) as [e|] eqn:Hlk; [|done].
  rewrite Ho by (eapply Hns; [apply list_elem_of_here | done]).
  destruct (vertices g !! target e); [|done].
  apply IH; [done | done |].
  intros eid' e' Hin. apply Hns. by apply list_elem_of_further.
Qed.

Lemma relax_edges_estimate v outedgeid : ∀ g g' vd,
  relax_edges v g outedgeid = Done g' →
  no_self_loop g v outedgeid →
  vertices g !! v = Some vd →
  ∃ vd', vertices g' !! v = Some vd'
         ∧ pred_x vd' = relaxed g (pred_x vd) outedgeid.
Proof.
  induction outedgeid as [|eid rest IH]; intros g g' vd; simpl.
  - intros [= <-] _ Hvd. by exists vd.
  - intros Hr Hns Hvd.
    apply obind_Done in Hr as (g1 & H1 & Hrest).
    pose proof (relax_edge_frame _ _ _ _ H1) as (He & _ & Ho & _).
    unfold relax_edge in H1.
    apply obind_Done in H1 as (e & Hlk & H1). apply get_edge_Done in Hlk.
    apply obind_Done in H1 as (other & Hot & H1).
    apply get_vertex_Done in Hot.
    apply obind_Done in H1 as (vd0 & Hvd0 & H1).
    apply get_vertex_Done in Hvd0. assert (vd0 = vd) as -> by congruence.
    injection H1 as <-. rewrite Hlk, Hot.
    set (x1 := r_sub (pred_x vd) (r_mul (weight (data e)) (pred_x other))).
    assert (no_self_loop g v rest) as Hns'.
    { intros eid' e' Hin. apply Hns. by apply list_elem_of_further. }
    destruct (IH _ _ (set_pred_x vd x1) Hrest) as (vd' & Hvd' & Hx).
    + intros eid' e' Hin. simpl. by apply Hns'.
    + simpl. apply list_lookup_insert_eq. by eapply lookup_lt_Some.
    + exists vd'. split; [done|]. rewrite Hx. simpl.
      by apply (relaxed_frame v).
Qed.

(** When no out-edge of [v] leads back to [v], a completed invocation
    stores (x_v - A_vj1 * x_j1 - ...) / A_vv, with x_v the estimate [v] had
    before and the x_j the neighbours' estimates in the state it was invoked
    on; [y] does not occur. *)
Lemma jacobi_update_operator_estimate debug self v st st' :
  jacobi_update_operator debug self v st = Done st' →
  no_self_loop (graph st) v (out_edge_ids (graph st) v) →
  ∃ vd vd',
    vertices (graph st) !! v = Some vd
    ∧ vertices (graph st') !! v = Some vd'
    ∧ pred_x vd'
      = r_div (relaxed (graph st) (pred_x vd) (out_edge_ids (graph st) v))
              (Aii vd).
Proof.
  intros Hop Hns.
  apply jacobi_update_operator_Done in Hop
    as (vd & g2 & vd2 & Hvd & _ & Hloop & Hvd2 & Hg & _).
  pose proof (lookup_lt_Some _ _ _ Hvd) as Hv.
  set (g1 := put_vertex (graph st) v (set_prev_x vd (pred_x vd))) in *.
  assert (∀ u, u ≠ v → vertices g1 !! u = vertices (graph st) !! u) as Ho.
  { intros u Hu. subst g1; simpl. by apply list_lookup_insert_ne. }
  destruct (relax_edges_estimate _ _ g1 g2 (set_prev_x vd (pred_x vd)) Hloop)
    as (vd2' & Hvd2' & Hx).
  { intros eid e Hin. subst g1; simpl. by apply Hns. }
  { subst g1; simpl. by apply list_lookup_insert_eq. }
  assert (vd2' = vd2) as -> by congruence.
  pose proof (relax_edges_frame _ _ _ _ Hloop) as (_ & _ & _ & Hsame).
  destruct (Hsame (set_prev_x vd (pred_x vd))) as (vd3 & Hvd3 & Hs).
  { subst g1; simpl. by apply list_lookup_insert_eq. }
  assert (vd3 = vd2) as -> by congruence.
  destruct Hs as (_ & Ha & _). simpl in Ha, Hx.
  exists vd, (set_pred_x vd2 (r_div (pred_x vd2) (Aii vd2))).
  split; [done|]. split.
  - rewrite Hg. simpl. apply list_lookup_insert_eq. by eapply lookup_lt_Some.
  - simpl. rewrite Hx, Ha. f_equal. by apply (relaxed_frame v).
Qed.

(** ** The update functor's frame *)

(** C7: a completed invocation of the update functor on [v] leaves every
    other vertex record and every edge (ends and weight) as they were, and
    of [v]'s own record it changes at most [pred_x] and [prev_x]: [y], [Aii]
    and [real_x] keep their values. *)
Theorem update_mutates_only_own_estimates debug self v st st' :
  jacobi_update_operator debug self v st = Done st' →
  (∀ u, u ≠ v → vertices (graph st') !! u = vertices (graph st) !! u)
  ∧ edges (graph st') = edges (graph st)
  ∧ length (vertices (graph st')) = length (vertices (graph st))
  ∧ ∃ vd vd',
      vertices (graph st) !! v = Some vd
      ∧ vertices (graph st') !! v = Some vd'
      ∧ y vd' = y vd ∧ Aii vd' = Aii vd ∧ real_x vd' = real_x vd.
Proof.
  intros Hop.
  destruct (jacobi_update_operator_effect _ _ _ _ _ Hop)
    as (He & Hl & Ho & vd & vd' & Hvd & Hvd' & Hy & Ha & Hr & _).
  repeat split; try done. by exists vd, vd'.
Qed.

(** C8: after a completed invocation on [v], [v]'s [prev_x] is the value its
    [pred_x] had when the invocation began, and the task ([v], the functor
    itself) has been handed to the scheduler. *)
Theorem update_saves_estimate_and_reschedules debug self v st st' :
  jacobi_update_operator debug self v st = Done st' →
  (∃ vd vd',
      vertices (graph st) !! v = Some vd
      ∧ vertices (graph st') !! v = Some vd'
      ∧ prev_x vd' = pred_x vd)
  ∧ scheduler st' = scheduler st ++ [(v, self)]
  ∧ (v, self) ∈ scheduler st'.
Proof.
  intros Hop.
  destruct (jacobi_update_operator_effect _ _ _ _ _ Hop)
    as (_ & _ & _ & vd & vd' & Hvd & Hvd' & _ & _ & _ & Hp).
  apply jacobi_update_operator_Done in Hop
    as (_ & _ & _ & _ & _ & _ & _ & _ & Hs & _).
  split; [by exists vd, vd'|]. split; [done|].
  rewrite Hs. apply elem_of_app. right. apply list_elem_of_singleton. done.
Qed.

(** ** The debug flag *)

(** Two outcomes that differ at most in what was written to [std::cout]. *)
Definition same_up_to_cout (o1 o2 : outcome (engine_state R)) : Prop :=
  match o1, o2 with
  | Done st1, Done st2 =>
      graph st1 = graph st2 ∧ scheduler st1 = scheduler st2
      ∧ globals st1 = globals st2 ∧ terminated st1 = terminated st2
  | Fault f1, Fault f2 => f1 = f2
  | _, _ => False
  end.

(** C9: with [debug] set or not, an invocation of the update functor ends
    the same way (the same fault, or completion) and leaves the same graph
    (hence the same [pred_x] and [prev_x] everywhere), scheduler, globals
    and termination flag; only [std::cout] can differ. *)
Theorem debug_only_affects_cout self v st :
  same_up_to_cout (jacobi_update_operator true self v st)
                  (jacobi_update_operator false self v st).
Proof.
  unfold jacobi_update_operator.
  destruct (get_vertex (graph st) v) as [vd|f]; simpl; [|done].
  destruct (r_eqb (Aii vd) r_zero); simpl; [done|].
  destruct (relax_edges v _ (out_edge_ids (graph st) v)) as [g2|f];
    simpl; [|done].
  destruct (get_vertex g2 v) as [vd2|f]; simpl; done.
Qed.

(** ** Default construction *)

(** C10: [vertex_data()] yields y = 0, Aii = 1, pred_x = 0, real_x = 0 and
    prev_x = numeric_limits::max(); the diagonal 1 does not compare equal to
    0, so on a vertex whose diagonal still has the constructor's value the
    update functor's assertion [A_ii != 0] never fires. *)
Theorem default_vertex_data :
  y (vertex_data_ctor (R:=R)) = r_zero
  ∧ Aii (vertex_data_ctor (R:=R)) = r_one
  ∧ pred_x (vertex_data_ctor (R:=R)) = r_zero
  ∧ real_x (vertex_data_ctor (R:=R)) = r_zero
  ∧ prev_x (vertex_data_ctor (R:=R)) = r_max
  ∧ r_eqb (Aii (vertex_data_ctor (R:=R))) r_zero = false
  ∧ ∀ debug self v st vd,
      vertices (graph st) !! v = Some vd →
      Aii vd = Aii (vertex_data_ctor (R:=R)) →
      jacobi_update_operator debug self v st ≠ Fault assert_A_ii_nonzero.
Proof.
  repeat split; try done; try apply r_one_nonzero.
  intros debug self v st vd Hvd HA.
  apply jacobi_update_operator_assert. exists vd.
  split; [done|]. rewrite HA. apply r_one_nonzero.
Qed.

(** ** Finalize *)

(** C3: with a threshold configured, [finalize] completes, stores the
    accumulated [real_norm] and [relative_norm] under "REAL_NORM" and
    "RELATIVE_NORM" in the globals, and calls [terminate()] exactly when
    [real_norm < threshold]: the termination flag of a running engine is
    set afterwards if and only if the comparison holds. *)
Theorem finalize_publishes_and_terminates (acc : accumulator R) st threshold :
  globals st !! "THRESHOLD" = Some threshold →
  ∃ st',
    accumulator_finalize acc st = Done st'
    ∧ globals st' !! "REAL_NORM" = Some (real_norm acc)
    ∧ globals st' !! "RELATIVE_NORM" = Some (relative_norm acc)
    ∧ terminated st'
      = (if r_ltb (real_norm acc) threshold then true else terminated st)
    ∧ (terminated st = false →
       (terminated st' = true ↔ r_ltb (real_norm acc) threshold = true)).
Proof.
  intros Hthr. unfold accumulator_finalize, get_global; simpl.
  rewrite !lookup_insert_ne by done. rewrite Hthr; simpl.
  eexists; split; [done|].
  destruct (r_ltb (real_norm acc) threshold); simpl.
  - rewrite lookup_insert_ne by done. rewrite !lookup_insert_eq.
    repeat split; done.
  - rewrite lookup_insert_ne by done. rewrite !lookup_insert_eq.
    repeat split; try done. congruence.
Qed.

(** ** Runs on a graph without zero diagonals *)

(** Every edge joins two vertices of the graph. *)
Definition graph_wf g : Prop :=
  ∀ eid (e : edge_record R), edges g !! eid = Some e →
    source e < length (vertices g) ∧ target e < length (vertices g).


Lemma graph_wf_frame v g g' : frame_of v g g' → graph_wf g → graph_wf g'.
Proof.
  intros (He & Hl & _) Hwf eid e. rewrite He, Hl. apply Hwf.
Qed.

Lemma out_edge_ids_from_bound (es : list (edge_record R)) v : ∀ i,
  Forall (λ eid, eid < i + length es) (out_edge_ids_from i es v).
Proof.
  induction es as [|e es IH]; intros i; simpl; [constructor|].
  specialize (IH (S i)).
  assert (Forall (λ eid, eid < i + S (length es))
            (out_edge_ids_from (S i) es v)) as Hrest.
  { eapply Forall_impl; [exact IH|]. simpl. intros; lia. }
  destruct (decide (source e = v)); [constructor; [lia|done] | done].
Qed.

Lemma relax_edge_total v g eid :
  graph_wf g → v < length (vertices g) → eid < length (edges g) →
  ∃ g', relax_edge v g eid = Done g'.
Proof.
  intros Hwf Hv Heid. unfold relax_edge, get_edge, get_vertex.
  destruct (edges g !! eid) as [e|] eqn:He; simpl;
    [|apply lookup_ge_None in He; lia].
  destruct (Hwf _ _ He) as [_ Ht].
  destruct (vertices g !! target e) as [other|] eqn:Ho; simpl;
    [|apply lookup_ge_None in Ho; lia].
  destruct (vertices g !! v) as [vd|] eqn:Hvd; simpl;
    [|apply lookup_ge_None in Hvd; lia].
  eauto.
Qed.

Lemma relax_edges_total v outedgeid : ∀ g,
  graph_wf g → v < length (vertices g) →
  Forall (λ eid, eid < length (edges g)) outedgeid →
  ∃ g', relax_edges v g outedgeid = Done g'.
Proof.
  induction outedgeid as [|eid rest IH]; intros g Hwf Hv Hall; simpl.
  - eauto.
  - apply Forall_cons in Hall as [Heid Hrest].
    destruct (relax_edge_total v g eid Hwf Hv Heid) as [g1 Hg1].
    rewrite Hg1; simpl. pose proof (relax_edge_frame _ _ _ _ Hg1) as Hf.
    pose proof Hf as (He & Hl & _).
    apply IH.
    + by eapply graph_wf_frame.
    + by rewrite Hl.
    + by rewrite He.
Qed.

(** The update functor returns on every vertex of a well-formed graph whose
    diagonal passes the assertion. *)
Lemma jacobi_update_operator_total debug self v st vd :
  graph_wf (graph st) → vertices (graph st) !! v = Some vd →
  r_eqb (Aii vd) r_zero = false →
  ∃ st', jacobi_update_operator debug self v st = Done st'.
Proof.
  intros Hwf Hvd Hnz. unfold jacobi_update_operator.
  pose proof (lookup_lt_Some _ _ _ Hvd) as Hv.
  apply get_vertex_Done in Hvd. rewrite Hvd; simpl. rewrite Hnz.
  set (g1 := put_vertex (graph st) v (set_prev_x vd (pred_x vd))).
  destruct (relax_edges_total v (out_edge_ids (graph st) v) g1)
    as [g2 Hg2].
  { intros eid e. subst g1; simpl. rewrite length_insert. apply Hwf. }
  { subst g1; simpl. by rewrite length_insert. }
  { subst g1; simpl. apply (out_edge_ids_from_bound _ v 0). }
  assert (graph (if debug
            then print (with_graph st g1)
                   (line_entering v (Aii vd) (pred_x vd))
            else with_graph st g1) = g1) as -> by (by destruct debug).
  rewrite Hg2; simpl.
  destruct (relax_edges_frame _ _ _ _ Hg2) as (_ & Hl & _).
  assert (v < length (vertices g2)) as Hv2.
  { rewrite Hl. subst g1; simpl. by rewrite length_insert. }
  unfold get_vertex.
  destruct (vertices g2 !! v) as [vd2|] eqn:Hvd2; simpl;
    [|apply lookup_ge_None in Hvd2; lia].
  eauto.
Qed.



(** *** The loader *)










End JacobiFacts.

(** ** The update rule on concrete systems *)

Lemma Qc_this_inj (a b : Qc) : this a = this b → a = b.
Proof. intros Hab. apply Qc_is_canon. by rewrite Hab. Qed.

(** On a vertex without out-edges the new estimate is the old estimate
    divided by the diagonal; [y] plays no part. *)
Lemma jacobi_update_operator_no_out_edges {R} `{RealType R}
  debug self v (st : engine_state R) vd :
  out_edge_ids (graph st) v = [] →
  vertices (graph st) !! v = Some vd →
  r_eqb (Aii vd) r_zero = false →
  ∃ st' vd',
    jacobi_update_operator debug self v st = Done st'
    ∧ vertices (graph st') !! v = Some vd'
    ∧ pred_x vd' = r_div (pred_x vd) (Aii vd).
Proof.
  intros Hout Hvd Hnz. unfold jacobi_update_operator.
  pose proof (lookup_lt_Some _ _ _ Hvd) as Hv.
  apply get_vertex_Done in Hvd. rewrite Hvd; simpl. rewrite Hnz, Hout.
  assert (∀ l,
    get_vertex (graph (if debug
        then print (with_graph st (put_vertex (graph st) v
                      (set_prev_x vd (pred_x vd)))) l
        else with_graph st (put_vertex (graph st) v
                      (set_prev_x vd (pred_x vd))))) v
    = Done (set_prev_x vd (pred_x vd))) as Hget.
  { intros l. apply get_vertex_Done.
    destruct debug; simpl; by apply list_lookup_insert_eq. }
  simpl. rewrite Hget; simpl.
  eexists _, _. split; [reflexivity|]. split.
  - destruct debug; simpl; apply list_lookup_insert_eq;
      by rewrite length_insert.
  - reflexivity.
Qed.

(** C1: on the spec's 3x3 system as loaded (diagonal 4, off-diagonals -1,
    b = (3,6,9), every estimate 0) the update functor leaves vertex 0 with
    estimate 0, in binary64 and in exact arithmetic alike, where
    (y_0 - sum_j A_0j * x_j) / A_00 is 3/4: the accumulation starts from the
    old estimate, not from y. *)
Theorem update_ignores_right_hand_side :
  (load Double.scenario = inr Double.scenario_loaded
   ∧ jacobi_update_operator false Jacobi_update 0 Double.scenario_loaded
     = Done Double.scenario_updated
   ∧ get_output <$> vertices (graph Double.scenario_updated) !! 0
     = Some 0%float
   ∧ spec_estimate (graph Double.scenario_loaded) 0 = Some 0.75%float)
  ∧ (load Exact.scenario = inr Exact.scenario_loaded
     ∧ jacobi_update_operator false Jacobi_update 0 Exact.scenario_loaded
       = Done Exact.scenario_updated
     ∧ get_output <$> vertices (graph Exact.scenario_updated) !! 0
       = Some 0%Qc
     ∧ spec_estimate (graph Exact.scenario_loaded) 0 = Some (Q2Qc (3 # 4))).
Proof.
  split; (split; [vm_compute; reflexivity|]);
    (split; [vm_compute; reflexivity|]); split;
    vm_compute;
    first [reflexivity | f_equal; apply Qc_this_inj; reflexivity].
Qed.

(** C5: on the system diag(2,4), b = (6,8), which has no off-diagonal
    entry, one sweep from the loaded state leaves the estimates at (0,0),
    in binary64 and in exact arithmetic alike, where y_i / A_ii is (3,2). *)
Theorem diagonal_sweep_misses_solution :
  (load Double.diagonal = inr (loaded Double.diagonal)
   ∧ sweep false (loaded Double.diagonal) = Done Double.diagonal_swept
   ∧ fill_output (graph Double.diagonal_swept) = [0%float; 0%float]
   ∧ spec_diagonal_solution (graph (loaded Double.diagonal))
     = [3%float; 2%float])
  ∧ (load Exact.diagonal = inr (loaded Exact.diagonal)
     ∧ sweep false (loaded Exact.diagonal) = Done Exact.diagonal_swept
     ∧ fill_output (graph Exact.diagonal_swept) = [0%Qc; 0%Qc]
     ∧ spec_diagonal_solution (graph (loaded Exact.diagonal))
       = [Q2Qc 3; Q2Qc 2]).
Proof.
  split; (split; [vm_compute; reflexivity|]);
    (split; [vm_compute; reflexivity|]); split;
    vm_compute;
    first [reflexivity
          | f_equal; [|f_equal]; apply Qc_this_inj; reflexivity].
Qed.

(** ** The accumulator on concrete systems *)

(** In exact arithmetic [operator+=] is commutative and associative. *)
Lemma accumulator_plus_eq_comm (a b : accumulator Qc) :
  accumulator_plus_eq a b = accumulator_plus_eq b a.
Proof. unfold accumulator_plus_eq; simpl. f_equal; ring. Qed.

Lemma accumulator_plus_eq_assoc (a b c : accumulator Qc) :
  accumulator_plus_eq (accumulator_plus_eq a b) c
  = accumulator_plus_eq a (accumulator_plus_eq b c).
Proof. unfold accumulator_plus_eq; simpl. f_equal; ring. Qed.

(** C2: after one sweep of the spec's 3x3 system every estimate, reference
    and previous estimate is 0, so both sums of squares are 0; the pass
    over all vertices nevertheless ends with both norms at
    numeric_limits::max(), the value the accumulator is constructed with,
    in binary64 and in exact arithmetic alike. *)
Theorem accumulator_starts_from_max :
  (sweep false Double.scenario_loaded = Done Double.scenario_swept
   ∧ accumulate_all Double.scenario_swept
     = Done (Accumulator double_max double_max)
   ∧ spec_absolute_error_norm (vertices (graph Double.scenario_swept))
     = 0%float
   ∧ spec_relative_error_norm (vertices (graph Double.scenario_swept))
     = 0%float)
  ∧ (sweep false Exact.scenario_loaded = Done Exact.scenario_swept
     ∧ accumulate_all Exact.scenario_swept
       = Done (Accumulator exact_max exact_max)
     ∧ spec_absolute_error_norm (vertices (graph Exact.scenario_swept))
       = 0%Qc
     ∧ spec_relative_error_norm (vertices (graph Exact.scenario_swept))
       = 0%Qc
     ∧ exact_max ≠ 0%Qc).
Proof.
  split.
  - repeat split; vm_compute; reflexivity.
  - split; [vm_compute; reflexivity|].
    split; [vm_compute; first [reflexivity
      | f_equal; f_equal; apply Qc_this_inj; reflexivity]|].
    split; [apply Qc_this_inj; vm_compute; reflexivity|].
    split; [apply Qc_this_inj; vm_compute; reflexivity|].
    intros Heq. apply (f_equal this) in Heq. vm_compute in Heq. done.
Qed.

(** C6: on the swept 3x3 system, the pass split over the groups {0} and
    {1,2} ends with other norms than the pass over {0,1,2}: infinity
    against numeric_limits::max() in binary64, twice numeric_limits::max()
    against numeric_limits::max() in exact arithmetic, since every group's
    accumulator starts from numeric_limits::max(). *)
Theorem partition_changes_norms :
  (accumulation_pass Double.scenario_swept [[0]; [1; 2]]
   = Done (Accumulator infinity infinity)
   ∧ accumulate_all Double.scenario_swept
     = Done (Accumulator double_max double_max))
  ∧ (accumulation_pass Exact.scenario_swept [[0]; [1; 2]]
     = Done (Accumulator (exact_max + exact_max)%Qc
                         (exact_max + exact_max)%Qc)
     ∧ accumulate_all Exact.scenario_swept
       = Done (Accumulator exact_max exact_max)
     ∧ (exact_max + exact_max)%Qc ≠ exact_max).
Proof.
  split.
  - split; vm_compute; reflexivity.
  - split; [vm_compute; first [reflexivity
      | f_equal; f_equal; apply Qc_this_inj; reflexivity]|].
    split; [vm_compute; first [reflexivity
      | f_equal; f_equal; apply Qc_this_inj; reflexivity]|].
    intros Heq. apply (f_equal this) in Heq. vm_compute in Heq. done.
Qed.

(** ** Instances of the general statements *)

Lemma update_mutates_only_own_estimates_witness :
  jacobi_update_operator false Jacobi_update 0 Double.scenario_loaded
  = Done Double.scenario_updated
  ∧ (∀ u, u ≠ 0 →
       vertices (graph Double.scenario_updated) !! u
       = vertices (graph Double.scenario_loaded) !! u)
  ∧ edges (graph Double.scenario_updated)
    = edges (graph Double.scenario_loaded).
Proof.
  assert (jacobi_update_operator false Jacobi_update 0
            Double.scenario_loaded = Done Double.scenario_updated) as Hop
    by (vm_compute; reflexivity).
  split; [exact Hop|].
  pose proof (update_mutates_only_own_estimates false Jacobi_update 0
                Double.scenario_loaded Double.scenario_updated Hop)
    as (Hothers & Hedges & _).
  split; [exact Hothers | exact Hedges].
Defined.

Lemma update_saves_estimate_and_reschedules_witness :
  jacobi_update_operator true Jacobi_update 1 Double.scenario_loaded
  = Done (state_or Double.scenario_loaded
            (jacobi_update_operator true Jacobi_update 1
               Double.scenario_loaded))
  ∧ (1, Jacobi_update)
    ∈ scheduler (state_or Double.scenario_loaded
                   (jacobi_update_operator true Jacobi_update 1
                      Double.scenario_loaded)).
Proof.
  assert (jacobi_update_operator true Jacobi_update 1 Double.scenario_loaded
          = Done (state_or Double.scenario_loaded
                    (jacobi_update_operator true Jacobi_update 1
                       Double.scenario_loaded))) as Hop
    by (vm_compute; reflexivity).
  split; [exact Hop|].
  exact (proj2 (proj2 (update_saves_estimate_and_reschedules true
                         Jacobi_update 1 _ _ Hop))).
Defined.

Lemma default_vertex_data_witness :
  vertices (graph (loaded Double.unloaded)) !! 0
  = Some (set_val vertex_data_ctor 5%float)
  ∧ jacobi_update_operator false Jacobi_update 0 (loaded Double.unloaded)
    ≠ Fault assert_A_ii_nonzero.
Proof.
  assert (vertices (graph (loaded Double.unloaded)) !! 0
          = Some (set_val vertex_data_ctor 5%float)) as Hvd
    by (vm_compute; reflexivity).
  split; [exact Hvd|].
  destruct (default_vertex_data (R:=float)) as (_ & _ & _ & _ & _ & _ & Hop).
  exact (Hop false Jacobi_update 0 (loaded Double.unloaded)
           (set_val vertex_data_ctor 5%float) Hvd eq_refl).
Defined.

Lemma finalize_publishes_and_terminates_witness :
  globals Double.configured !! "THRESHOLD" = Some Double.default_threshold
  ∧ ∃ st',
      accumulator_finalize (Accumulator double_max double_max)
        Double.configured = Done st'
      ∧ globals st' !! "REAL_NORM" = Some double_max
      ∧ globals st' !! "RELATIVE_NORM" = Some double_max.
Proof.
  assert (globals Double.configured !! "THRESHOLD"
          = Some Double.default_threshold) as Hthr
    by (vm_compute; reflexivity).
  split; [exact Hthr|].
  destruct (finalize_publishes_and_terminates
              (Accumulator double_max double_max) Double.configured
              Double.default_threshold Hthr)
    as (st' & Hfin & Hreal & Hrel & _).
  exists st'. split; [exact Hfin|]. split; [exact Hreal | exact Hrel].
Defined.



(** * Further properties of the functors *)

Section UpdateMore.
Context {R : Type} `{RT : RealType R}.
Implicit Types (g : graph_type R) (st : engine_state R) (vd : vertex_data R).
Implicit Types (v u : nat) (self : jacobi_update).

Lemma relax_edges_in_place v g0 outedgeid : ∀ g g' vd,
  edges g = edges g0 →
  (∀ u, u ≠ v → vertices g !! u = vertices g0 !! u) →
  relax_edges v g outedgeid = Done g' →
  vertices g !! v = Some vd →
  ∃ vd', vertices g' !! v = Some vd'
         ∧ pred_x vd' = relaxed_in_place v g0 (pred_x vd) outedgeid.
Proof.
  induction outedgeid as [|eid rest IH]; intros g g' vd He Ho; simpl.
  - intros [= <-] Hvd. by exists vd.
  - intros Hr Hvd.
    apply obind_Done in Hr as (g1 & H1 & Hrest).
    pose proof (relax_edge_frame _ _ _ _ H1) as (He1 & _ & Ho1 & _).
    unfold relax_edge in H1.
    apply obind_Done in H1 as (e & Hlk & H1). apply get_edge_Done in Hlk.
    apply obind_Done in H1 as (other & Hot & H1).
    apply get_vertex_Done in Hot.
    apply obind_Done in H1 as (vd0 & Hvd0 & H1).
    apply get_vertex_Done in Hvd0. assert (vd0 = vd) as -> by congruence.
    injection H1 as <-. rewrite <- He, Hlk.
    set (x1 := r_sub (pred_x vd) (r_mul (weight (data e)) (pred_x other))).
    assert ((if decide (target e = v) then Some (pred_x vd)
             else pred_x <$> vertices g0 !! target e)
            = Some (pred_x other)) as ->.
    { destruct (decide (target e = v)) as [Heq|Hne].
      - rewrite Heq in Hot. congruence.
      - rewrite <- (Ho _ Hne), Hot. done. }
    destruct (IH (put_vertex g v (set_pred_x vd x1)) g' (set_pred_x vd x1))
      as (vd' & Hvd' & Hx).
    + simpl. congruence.
    + intros u Hu. transitivity (vertices g !! u);
        [exact (Ho1 u Hu) | by apply Ho].
    + exact Hrest.
    + simpl. apply list_lookup_insert_eq. by eapply lookup_lt_Some.
    + by exists vd'.
Qed.

(** X2: the estimate a completed invocation on [v] stores is the old
    estimate of [v], less weight * estimate for every out-edge in edge-id
    order, divided by the diagonal.  The neighbours' estimates are the ones
    the state held when the functor was invoked, except that an edge leading
    back to [v] reads the partly relaxed [x_i].  [y] does not occur. *)
Theorem update_stores_relaxed_old_estimate debug self v st st' :
  jacobi_update_operator debug self v st = Done st' →
  ∃ vd vd',
    vertices (graph st) !! v = Some vd
    ∧ vertices (graph st') !! v = Some vd'
    ∧ pred_x vd'
      = r_div (relaxed_in_place v (graph st) (pred_x vd)
                 (out_edge_ids (graph st) v))
              (Aii vd).
Proof.
  intros Hop.
  apply jacobi_update_operator_Done in Hop
    as (vd & g2 & vd2 & Hvd & _ & Hloop & Hvd2 & Hg & _).
  pose proof (lookup_lt_Some _ _ _ Hvd) as Hv.
  set (g1 := put_vertex (graph st) v (set_prev_x vd (pred_x vd))) in *.
  destruct (relax_edges_in_place v (graph st) (out_edge_ids (graph st) v)
              g1 g2 (set_prev_x vd (pred_x vd))) as (vd2' & Hvd2' & Hx);
    [done | | done | |].
  { intros u Hu. subst g1; simpl. by apply list_lookup_insert_ne. }
  { subst g1; simpl. by apply list_lookup_insert_eq. }
  assert (vd2' = vd2) as -> by congruence.
  pose proof (relax_edges_frame _ _ _ _ Hloop) as (_ & _ & _ & Hsame).
  destruct (Hsame (set_prev_x vd (pred_x vd))) as (vd3 & Hvd3 & Hs).
  { subst g1; simpl. by apply list_lookup_insert_eq. }
  assert (vd3 = vd2) as -> by congruence.
  destruct Hs as (_ & Ha & _). simpl in Ha, Hx.
  exists vd, (set_pred_x vd2 (r_div (pred_x vd2) (Aii vd2))).
  split; [done|]. split.
  - rewrite Hg. simpl. apply list_lookup_insert_eq. by eapply lookup_lt_Some.
  - simpl. by rewrite Hx, Ha.
Qed.

(** X3: what a completed invocation writes to [std::cout]: nothing when
    [debug] is off; when it is on, exactly two lines, the first with the
    vertex id, its diagonal and the estimate it had on entry, the second
    with the vertex id and the estimate it has on return. *)
Theorem update_trace debug self v st st' :
  jacobi_update_operator debug self v st = Done st' →
  ∃ vd vd',
    vertices (graph st) !! v = Some vd
    ∧ vertices (graph st') !! v = Some vd'
    ∧ cout st'
      = cout st
        ++ (if debug
            then [line_entering v (Aii vd) (pred_x vd);
                  line_x_i v (pred_x vd')]
            else []).
Proof.
  intros Hop.
  apply jacobi_update_operator_Done in Hop
    as (vd & g2 & vd2 & Hvd & _ & _ & Hvd2 & Hg & _ & _ & _ & Hc).
  exists vd, (set_pred_x vd2 (r_div (pred_x vd2) (Aii vd2))).
  split; [done|]. split.
  - rewrite Hg. simpl. apply list_lookup_insert_eq. by eapply lookup_lt_Some.
  - rewrite Hc. destruct debug; simpl; by rewrite <- ?app_assoc, ?app_nil_r.
Qed.

(** X4: across any run of completed invocations the system being solved
    stays as loaded: the edges, the number of vertices and every vertex's
    [y], [Aii] and [real_x] are unchanged; the globals and the termination
    flag are untouched; and the scheduler has gained exactly one task per
    invocation, in the order of the run. *)
Theorem run_keeps_system_and_grows_scheduler debug vs : ∀ st st',
  invoke_each debug vs st = Done st' →
  edges (graph st') = edges (graph st)
  ∧ length (vertices (graph st')) = length (vertices (graph st))
  ∧ (∀ u vd, vertices (graph st) !! u = Some vd →
       ∃ vd', vertices (graph st') !! u = Some vd'
              ∧ y vd' = y vd ∧ Aii vd' = Aii vd ∧ real_x vd' = real_x vd)
  ∧ scheduler st' = scheduler st ++ map (λ v, (v, Jacobi_update)) vs
  ∧ globals st' = globals st
  ∧ terminated st' = terminated st.
Proof.
  induction vs as [|v rest IH]; intros st st'; simpl.
  - intros [= <-]. rewrite app_nil_r. repeat split; try done.
    intros u vd Hvd. by exists vd.
  - intros Hrun. apply obind_Done in Hrun as (st1 & Hop & Hrest).
    destruct (IH _ _ Hrest) as (He & Hl & Hv & Hs & Hg & Ht).
    destruct (jacobi_update_operator_effect _ _ _ _ _ Hop)
      as (He1 & Hl1 & Ho1 & vd0 & vd0' & Hvd0 & Hvd0' & Hy & Ha & Hr & _).
    apply jacobi_update_operator_Done in Hop
      as (_ & _ & _ & _ & _ & _ & _ & _ & Hs1 & Hg1 & Ht1 & _).
    split; [congruence|]. split; [congruence|]. split; [|split; [|split]].
    + intros u vd Hvd. destruct (decide (u = v)) as [->|Hne].
      * assert (vd = vd0) as -> by congruence.
        destruct (Hv _ _ Hvd0') as (vd' & Hvd' & Hy' & Ha' & Hr').
        exists vd'. repeat split; congruence.
      * rewrite <- (Ho1 u Hne) in Hvd. by apply Hv.
    + rewrite Hs, Hs1. by rewrite <- app_assoc.
    + congruence.
    + congruence.
Qed.

End UpdateMore.

(** ** Estimates that are zero stay zero *)

Section ZeroEstimates.
Context {R : Type} `{RT : RealType R}.
Variables (zero_like plain_weight plain_diagonal : R → Prop).
Hypothesis relax_zero : ∀ x w o,
  zero_like x → plain_weight w → zero_like o →
  zero_like (r_sub x (r_mul w o)).
Hypothesis div_zero : ∀ x a,
  zero_like x → plain_diagonal a → r_eqb a r_zero = false →
  zero_like (r_div x a).

Lemma estimates_all_put (g : graph_type R) v vd :
  estimates_all zero_like g → zero_like (pred_x vd) →
  estimates_all zero_like (put_vertex g v vd).
Proof.
  intros Hall Hvd u ud. simpl. intros Hu.
  apply list_lookup_insert_Some in Hu as [(-> & <- & _)|[_ Hu]];
    [done | by eapply Hall].
Qed.

Lemma relax_edges_keeps_zero v outedgeid : ∀ (g g' : graph_type R),
  relax_edges v g outedgeid = Done g' →
  estimates_all zero_like g → weights_all plain_weight g →
  estimates_all zero_like g'.
Proof using relax_zero.
  induction outedgeid as [|eid rest IH]; intros g g'; simpl.
  - by intros [= <-].
  - intros Hr Hz Hw. apply obind_Done in Hr as (g1 & H1 & Hrest).
    pose proof (relax_edge_frame _ _ _ _ H1) as (He1 & _).
    unfold relax_edge in H1.
    apply obind_Done in H1 as (e & Hlk & H1). apply get_edge_Done in Hlk.
    apply obind_Done in H1 as (other & Hot & H1).
    apply get_vertex_Done in Hot.
    apply obind_Done in H1 as (vd & Hvd & H1).
    apply get_vertex_Done in Hvd. injection H1 as <-.
    apply (IH _ _ Hrest).
    + apply estimates_all_put; [done|]. simpl.
      apply relax_zero; [by eapply Hz | by eapply Hw | by eapply Hz].
    + intros eid' e'. simpl. apply Hw.
Qed.

Lemma jacobi_update_operator_keeps_zero debug self v
  (st st' : engine_state R) :
  jacobi_update_operator debug self v st = Done st' →
  estimates_all zero_like (graph st) →
  weights_all plain_weight (graph st) →
  diagonals_all plain_diagonal (graph st) →
  estimates_all zero_like (graph st').
Proof using relax_zero div_zero.
  intros Hop Hz Hw Hd.
  apply jacobi_update_operator_Done in Hop
    as (vd & g2 & vd2 & Hvd & Hnz & Hloop & Hvd2 & Hg & _).
  set (g1 := put_vertex (graph st) v (set_prev_x vd (pred_x vd))) in *.
  assert (estimates_all zero_like g2) as Hz2.
  { apply (relax_edges_keeps_zero _ _ _ _ Hloop).
    - subst g1. apply estimates_all_put; [done|]. simpl. by eapply Hz.
    - intros eid e. subst g1; simpl. apply Hw. }
  pose proof (relax_edges_frame _ _ _ _ Hloop) as (_ & _ & _ & Hsame).
  destruct (Hsame (set_prev_x vd (pred_x vd))) as (vd3 & Hvd3 & Hs).
  { subst g1; simpl. apply list_lookup_insert_eq. by eapply lookup_lt_Some. }
  assert (vd3 = vd2) as -> by congruence.
  destruct Hs as (_ & Ha & _). simpl in Ha.
  rewrite Hg. apply estimates_all_put; [done|]. simpl.
  apply div_zero; [by eapply Hz2 | | by rewrite Ha].
  rewrite Ha. by eapply Hd.
Qed.

Lemma invoke_each_keeps_zero debug vs : ∀ (st st' : engine_state R),
  invoke_each debug vs st = Done st' →
  estimates_all zero_like (graph st) →
  weights_all plain_weight (graph st) →
  diagonals_all plain_diagonal (graph st) →
  estimates_all zero_like (graph st').
Proof using relax_zero div_zero.
  induction vs as [|v rest IH]; intros st st'; simpl.
  - by intros [= <-].
  - intros Hrun Hz Hw Hd.
    apply obind_Done in Hrun as (st1 & Hop & Hrest).
    pose proof (jacobi_update_operator_keeps_zero _ _ _ _ _ Hop Hz Hw Hd)
      as Hz1.
    destruct (jacobi_update_operator_effect _ _ _ _ _ Hop)
      as (He1 & _ & Ho1 & vd0 & vd0' & Hvd0 & Hvd0' & _ & Ha & _).
    apply (IH _ _ Hrest Hz1).
    + intros eid e. rewrite He1. apply Hw.
    + intros u ud Hu. destruct (decide (u = v)) as [->|Hne].
      * assert (ud = vd0') as -> by congruence. rewrite Ha. by eapply Hd.
      * rewrite (Ho1 u Hne) in Hu. by eapply Hd.
Qed.

Lemma estimates_all_fill_output (g : graph_type R) :
  estimates_all zero_like g → Forall zero_like (fill_output g).
Proof.
  intros Hz. unfold fill_output. apply Forall_forall. intros x Hx.
  apply list_elem_of_fmap in Hx as (vd & -> & Hvd).
  apply list_elem_of_lookup in Hvd as (u & Hu). by eapply Hz.
Qed.

End ZeroEstimates.

(** *** binary64 *)

Lemma double_zero_inv x :
  double_zero x → ∃ s, Prim2SF x = S754_zero s.
Proof.
  unfold double_zero. rewrite FloatAxioms.eqb_spec.
  change (Prim2SF 0%float) with (S754_zero false).
  destruct (Prim2SF x) as [s|s| |s m e]; simpl; try done.
  - by exists s.
  - by destruct s.
  - by destruct s.
Qed.

Lemma double_zero_intro x s : Prim2SF x = S754_zero s → double_zero x.
Proof.
  intros Hx. unfold double_zero. by rewrite FloatAxioms.eqb_spec, Hx.
Qed.

Lemma double_finite_inv w :
  double_finite w →
  (∃ s, Prim2SF w = S754_zero s) ∨ (∃ s m e, Prim2SF w = S754_finite s m e).
Proof.
  unfold double_finite, is_finite, is_nan, is_infinity.
  rewrite !FloatAxioms.eqb_spec, abs_spec.
  change (Prim2SF infinity) with (S754_infinity false).
  destruct (Prim2SF w) as [s|s| |s m e]; simpl; intros Hf; try done.
  - left. eauto.
  - by destruct s.
  - right. eauto.
Qed.

Lemma double_relax_zero x w o :
  double_zero x → double_finite w → double_zero o →
  double_zero (x - w * o)%float.
Proof.
  intros [sx Hx]%double_zero_inv Hw [so Ho]%double_zero_inv.
  assert (∃ s, Prim2SF (w * o) = S754_zero s) as [sm Hm].
  { rewrite mul_spec, Ho. unfold SF64mul.
    destruct (double_finite_inv w Hw) as [[s ->]|(s & m & e & ->)];
      simpl; eauto. }
  apply (double_zero_intro _
           (if sx then (if sm then false else true) else false)).
  rewrite sub_spec, Hx, Hm. by destruct sx, sm.
Qed.

Lemma double_div_zero x a :
  double_zero x → double_number a → PrimFloat.eqb a 0 = false →
  double_zero (x / a)%float.
Proof.
  intros [sx Hx]%double_zero_inv Ha Hnz.
  unfold double_number, is_nan in Ha.
  rewrite FloatAxioms.eqb_spec in Ha, Hnz.
  change (Prim2SF 0%float) with (S754_zero false) in Hnz.
  unfold double_zero. rewrite FloatAxioms.eqb_spec, div_spec, Hx.
  unfold SF64div.
  destruct (Prim2SF a) as [s|s| |s m e]; simpl in *; done.
Qed.

(** X5: in binary64, when every estimate compares equal to zero, every
    edge weight is finite and no diagonal is a NaN, any run of completed
    invocations leaves every estimate equal to zero, whatever the
    right-hand sides are; the solution vector read out afterwards is all
    zeros. *)
Theorem double_zero_estimates_stay_zero debug vs
  (st st' : engine_state float) :
  invoke_each debug vs st = Done st' →
  estimates_all double_zero (graph st) →
  weights_all double_finite (graph st) →
  diagonals_all double_number (graph st) →
  estimates_all double_zero (graph st')
  ∧ Forall double_zero (fill_output (graph st')).
Proof.
  intros Hrun Hz Hw Hd.
  assert (estimates_all double_zero (graph st')) as Hz'.
  { eapply (invoke_each_keeps_zero double_zero double_finite double_number);
      try done.
    - apply double_relax_zero.
    - apply double_div_zero. }
  split; [done | by apply estimates_all_fill_output].
Qed.

(** ** Further properties of the accumulator *)



(** X11: [finalize], when it returns, leaves the graph and the scheduler
    as they were, writes two lines to [std::cout], the first with
    [real_norm] and the second with [relative_norm], and changes no global
    other than "REAL_NORM" and "RELATIVE_NORM". *)
Theorem finalize_frame {R} `{RealType R} (acc : accumulator R)
  (st st' : engine_state R) :
  accumulator_finalize acc st = Done st' →
  graph st' = graph st
  ∧ scheduler st' = scheduler st
  ∧ cout st'
    = cout st
      ++ [line_real_norm (real_norm acc);
          line_relative_norm (relative_norm acc)]
  ∧ ∀ key, key ≠ "REAL_NORM" → key ≠ "RELATIVE_NORM" →
      globals st' !! key = globals st !! key.
Proof.
  unfold accumulator_finalize. intros Hfin.
  apply obind_Done in Hfin as (threshold & _ & Hfin).
  injection Hfin as <-.
  destruct (r_ltb (real_norm acc) threshold); simpl;
    (split; [done|]; split; [done|]; split;
       [by rewrite <- app_assoc
       |intros key Hk1 Hk2; by rewrite !lookup_insert_ne]).
Qed.

(** ** Instances of the further properties *)

Lemma update_stores_relaxed_old_estimate_witness :
  jacobi_update_operator false Jacobi_update 0 Double.scenario_loaded
  = Done Double.scenario_updated
  ∧ ∃ vd vd',
      vertices (graph Double.scenario_loaded) !! 0 = Some vd
      ∧ vertices (graph Double.scenario_updated) !! 0 = Some vd'
      ∧ pred_x vd'
        = (relaxed_in_place 0 (graph Double.scenario_loaded) (pred_x vd)
             (out_edge_ids (graph Double.scenario_loaded) 0)
           / Aii vd)%float.
Proof.
  assert (jacobi_update_operator false Jacobi_update 0
            Double.scenario_loaded = Done Double.scenario_updated) as Hop
    by (vm_compute; reflexivity).
  split; [exact Hop|].
  exact (update_stores_relaxed_old_estimate false Jacobi_update 0 _ _ Hop).
Defined.

Lemma update_trace_witness :
  jacobi_update_operator true Jacobi_update 2 Double.scenario_loaded
  = Done (state_or Double.scenario_loaded
            (jacobi_update_operator true Jacobi_update 2
               Double.scenario_loaded))
  ∧ ∃ vd vd',
      vertices (graph Double.scenario_loaded) !! 2 = Some vd
      ∧ vertices
          (graph (state_or Double.scenario_loaded
                    (jacobi_update_operator true Jacobi_update 2
                       Double.scenario_loaded))) !! 2 = Some vd'
      ∧ cout (state_or Double.scenario_loaded
                (jacobi_update_operator true Jacobi_update 2
                   Double.scenario_loaded))
        = cout Double.scenario_loaded
          ++ [line_entering 2 (Aii vd) (pred_x vd); line_x_i 2 (pred_x vd')].
Proof.
  assert (jacobi_update_operator true Jacobi_update 2 Double.scenario_loaded
          = Done (state_or Double.scenario_loaded
                    (jacobi_update_operator true Jacobi_update 2
                       Double.scenario_loaded))) as Hop
    by (vm_compute; reflexivity).
  split; [exact Hop|].
  exact (update_trace true Jacobi_update 2 _ _ Hop).
Defined.

Lemma run_keeps_system_and_grows_scheduler_witness :
  invoke_each false [0; 1; 2; 0] Double.scenario_loaded
  = Done (state_or Double.scenario_loaded
            (invoke_each false [0; 1; 2; 0] Double.scenario_loaded))
  ∧ scheduler (state_or Double.scenario_loaded
                 (invoke_each false [0; 1; 2; 0] Double.scenario_loaded))
    = scheduler Double.scenario_loaded
      ++ [(0, Jacobi_update); (1, Jacobi_update); (2, Jacobi_update);
          (0, Jacobi_update)].
Proof.
  assert (invoke_each false [0; 1; 2; 0] Double.scenario_loaded
          = Done (state_or Double.scenario_loaded
                    (invoke_each false [0; 1; 2; 0] Double.scenario_loaded)))
    as Hrun by (vm_compute; reflexivity).
  split; [exact Hrun|].
  exact (proj1 (proj2 (proj2 (proj2
           (run_keeps_system_and_grows_scheduler false [0; 1; 2; 0] _ _
              Hrun))))).
Defined.

Lemma double_zero_estimates_stay_zero_witness :
  invoke_each false [0; 1; 2; 1] Double.scenario_loaded
  = Done (state_or Double.scenario_loaded
            (invoke_each false [0; 1; 2; 1] Double.scenario_loaded))
  ∧ Forall double_zero
      (fill_output
         (graph (state_or Double.scenario_loaded
                   (invoke_each false [0; 1; 2; 1] Double.scenario_loaded)))).
Proof.
  assert (invoke_each false [0; 1; 2; 1] Double.scenario_loaded
          = Done (state_or Double.scenario_loaded
                    (invoke_each false [0; 1; 2; 1] Double.scenario_loaded)))
    as Hrun by (vm_compute; reflexivity).
  assert (estimates_all double_zero (graph Double.scenario_loaded)) as Hz.
  { intros [|[|[|u]]] vd Hvd; vm_compute in Hvd; try discriminate Hvd;
      injection Hvd as <-; vm_compute; reflexivity. }
  assert (weights_all double_finite (graph Double.scenario_loaded)) as Hw.
  { intros [|[|[|[|[|[|eid]]]]]] e He; vm_compute in He;
      try discriminate He; injection He as <-; vm_compute; reflexivity. }
  assert (diagonals_all double_number (graph Double.scenario_loaded)) as Hd.
  { intros [|[|[|u]]] vd Hvd; vm_compute in Hvd; try discriminate Hvd;
      injection Hvd as <-; vm_compute; reflexivity. }
  split; [exact Hrun|].
  exact (proj2 (double_zero_estimates_stay_zero false [0; 1; 2; 1] _ _
                  Hrun Hz Hw Hd)).
Defined.

Lemma finalize_frame_witness :
  accumulator_finalize (Accumulator double_max double_max) Double.configured
  = Done (state_or Double.configured
            (accumulator_finalize (Accumulator double_max double_max)
               Double.configured))
  ∧ cout (state_or Double.configured
            (accumulator_finalize (Accumulator double_max double_max)
               Double.configured))
    = cout Double.configured
      ++ [line_real_norm double_max; line_relative_norm double_max].
Proof.
  assert (accumulator_finalize (Accumulator double_max double_max)
            Double.configured
          = Done (state_or Double.configured
                    (accumulator_finalize (Accumulator double_max double_max)
                       Double.configured))) as Hfin
    by (vm_compute; reflexivity).
  split; [exact Hfin|].
  exact (proj1 (proj2 (proj2 (finalize_frame _ _ _ Hfin)))).
Defined.

(** ** A run over a graph with a zero diagonal *)

(** X12: on a well-formed graph, a run aborts in the assertion
    [A_ii != 0] at the first dispatched vertex whose diagonal compares equal
    to zero, whatever is dispatched after it; the invocations dispatched
    before it, on vertices with other diagonals, have all completed by
    then. *)
Theorem run_aborts_at_first_zero_diagonal {R} `{RealType R} debug
  (pre post : list nat) (v : nat) : ∀ st : engine_state R,
  graph_wf (graph st) →
  Forall (λ u, ∃ vd, vertices (graph st) !! u = Some vd
                     ∧ r_eqb (Aii vd) r_zero = false) pre →
  (∃ vd, vertices (graph st) !! v = Some vd
         ∧ r_eqb (Aii vd) r_zero = true) →
  (∃ st', invoke_each debug pre st = Done st')
  ∧ invoke_each debug (pre ++ v :: post) st = Fault assert_A_ii_nonzero.
Proof.
  induction pre as [|u pre IH]; intros st Hwf Hpre (vd & Hvd & Hz); simpl.
  - split; [by eexists|].
    by rewrite (jacobi_update_operator_zero_diagonal debug _ v st vd).
  - apply Forall_cons in Hpre as [(ud & Hud & Hnz) Hpre].
    destruct (jacobi_update_operator_total debug Jacobi_update u st ud
                Hwf Hud Hnz) as [st1 Hst1].
    rewrite Hst1; simpl.
    destruct (jacobi_update_operator_effect _ _ _ _ _ Hst1)
      as (He & Hl & Ho & ud0 & ud' & Hud0 & Hud' & _ & Ha & _).
    assert (ud0 = ud) as -> by congruence.
    assert (∀ w wd, vertices (graph st) !! w = Some wd →
              ∃ wd', vertices (graph st1) !! w = Some wd'
                     ∧ Aii wd' = Aii wd) as Hdiag.
    { intros w wd Hw. destruct (decide (w = u)) as [->|Hne].
      - exists ud'. split; [done|]. congruence.
      - exists wd. split; [|done]. by rewrite (Ho w Hne). }
    apply IH.
    + intros eid e. rewrite He, Hl. apply Hwf.
    + eapply Forall_impl; [exact Hpre|]. simpl.
      intros w (wd & Hw & Hwnz). destruct (Hdiag _ _ Hw) as (wd' & Hw' & Hwa).
      exists wd'. split; [done|]. by rewrite Hwa.
    + destruct (Hdiag _ _ Hvd) as (vd' & Hvd' & Hva).
      exists vd'. split; [done|]. by rewrite Hva.
Qed.

Lemma run_aborts_at_first_zero_diagonal_witness :
  invoke_each false ([0] ++ 1 :: [0])
    (Engine
       (Graph [Vertex_data 1%float 2%float 0%float 0%float double_max;
               Vertex_data 1%float 0%float 0%float 0%float double_max] [])
       [] ∅ false [])
  = Fault assert_A_ii_nonzero.
Proof.
  refine (proj2 (run_aborts_at_first_zero_diagonal false [0] [0] 1
                   (Engine
                      (Graph
                         [Vertex_data 1%float 2%float 0%float 0%float
                            double_max;
                          Vertex_data 1%float 0%float 0%float 0%float
                            double_max] [])
                      [] ∅ false []) _ _ _)).
  - intros eid e He. vm_compute in He. discriminate He.
  - constructor; [|constructor]. eexists. split; reflexivity.
  - eexists. split; reflexivity.
Defined.
